(** * nalu-wind: element assembly and the helpers of the master-element tests

    A shallow embedding of [AssembleElemSolverAlgorithm] (constructor and
    [execute], src/src/AssembleElemSolverAlgorithm.C) together with the
    interfaces it drives, and of the helper functions of the higher-order
    master-element unit tests (src/unit_tests/UnitTestHOMasterElements.C).

    C++ [double] is IEEE binary64 and is embedded as Rocq's primitive [float];
    [x /= f] is [PrimFloat.div].  The primitive type has one NaN: the sign
    and the payload of a NaN are not part of the embedding, every other
    value is embedded bit for bit.  [unsigned] and [int] are 32 bits wide
    and are embedded in [N] and [Z] with the wrap-around written out. *)

From Stdlib Require Import ZArith Lia Floats.
From stdpp Require Import base list strings.

(** ** IEEE binary64: dividing by one *)

Module Binary64.

Local Open Scope Z_scope.

(** The significand of [1.0]: 2^52, carried with exponent -52. *)
Definition one_mantissa : positive := 4503599627370496.

Definition SF_one : spec_float := S754_finite false one_mantissa (-52).

Lemma Prim2SF_one : Prim2SF 1%float = SF_one.
Proof. vm_compute. reflexivity. Qed.

Lemma div_eucl_pow2 (m : positive) (k s : Z) :
  0 <= s -> k = 52 + s ->
  Z.div_eucl (Z.pos m * 2 ^ k) (Z.pos one_mantissa) = (Z.pos m * 2 ^ s, 0).
Proof.
  intros Hs ->.
  assert (E : Z.pos m * 2 ^ (52 + s) = (Z.pos m * 2 ^ s) * Z.pos one_mantissa).
  { rewrite Z.pow_add_r by lia. change (2 ^ 52) with (Z.pos one_mantissa). ring. }
  rewrite E.
  pose proof (Z.div_mul (Z.pos m * 2 ^ s) (Z.pos one_mantissa) ltac:(lia)) as Hq.
  pose proof (Z.mod_mul (Z.pos m * 2 ^ s) (Z.pos one_mantissa) ltac:(lia)) as Hr.
  unfold Z.div, Z.modulo in Hq, Hr.
  destruct (Z.div_eucl _ _) as [q r]. simpl in *. congruence.
Qed.

(** A canonical significand is left alone by the rounding shift. *)
Lemma shr_fexp_canonical (m : positive) (e : Z) :
  canonical_mantissa prec emax m e = true ->
  shr_fexp prec emax (Z.pos m) e loc_Exact =
  ({| shr_m := Z.pos m; shr_r := false; shr_s := false |}, e).
Proof.
  unfold canonical_mantissa, shr_fexp. intros Hc%Z.eqb_eq.
  change (Zdigits2 (Z.pos m)) with (Z.pos (digits2_pos m)).
  rewrite Hc, Z.sub_diag. reflexivity.
Qed.

Lemma round_canonical (s : bool) (m : positive) (e : Z) :
  SpecFloat.bounded prec emax m e = true ->
  binary_round_aux prec emax s (Z.pos m) e loc_Exact = S754_finite s m e.
Proof.
  unfold SpecFloat.bounded. intros [Hc Hb]%andb_prop.
  unfold binary_round_aux. rewrite (shr_fexp_canonical _ _ Hc). simpl.
  rewrite (shr_fexp_canonical _ _ Hc). simpl.
  now rewrite Hb.
Qed.

(** A 54-bit quotient [2m] at exponent [e-1] rounds back to [m] at [e]. *)
Lemma round_doubled (s : bool) (m : positive) (e : Z) :
  SpecFloat.bounded prec emax m e = true ->
  Z.pos (digits2_pos m) = 53 ->
  binary_round_aux prec emax s (Z.pos m~0) (e - 1) loc_Exact = S754_finite s m e.
Proof.
  intros Hv Hd.
  assert (Hb := Hv). unfold SpecFloat.bounded in Hb. apply andb_prop in Hb as [Hc Hb].
  assert (Hs : shr_fexp prec emax (Z.pos m~0) (e - 1) loc_Exact =
               ({| shr_m := Z.pos m; shr_r := false; shr_s := false |}, e)).
  { unfold shr_fexp.
    change (Zdigits2 (Z.pos m~0)) with (Z.pos (Pos.succ (digits2_pos m))).
    rewrite Pos2Z.inj_succ, Hd.
    apply Z.eqb_eq in Hc. rewrite Hd in Hc. unfold SpecFloat.fexp in *.
    replace (Z.max (Z.succ 53 + (e - 1) - prec) (SpecFloat.emin prec emax) - (e - 1))
      with 1 by (unfold SpecFloat.emin, prec, emax in *; lia).
    simpl. f_equal. lia. }
  unfold binary_round_aux. rewrite Hs. simpl.
  rewrite (shr_fexp_canonical _ _ Hc). simpl.
  now rewrite Hb.
Qed.

Lemma SF64div_one (x : spec_float) :
  valid_binary x = true -> SF64div x SF_one = x.
Proof.
  destruct x as [s|s| |s m e]; simpl; intros Hv.
  - now destruct s.
  - now destruct s.
  - reflexivity.
  - assert (Hb := Hv). unfold SpecFloat.bounded, canonical_mantissa in Hb.
    apply andb_prop in Hb as [Hc Hb].
    apply Z.eqb_eq in Hc. apply Z.leb_le in Hb.
    unfold SF64div, SF_one, SFdiv, SFdiv_core_binary.
    change (Zdigits2 (Z.pos m)) with (Z.pos (digits2_pos m)).
    change (Zdigits2 (Z.pos one_mantissa)) with 53.
    rewrite Bool.xorb_false_r.
    unfold SpecFloat.fexp, SpecFloat.emin, prec, emax in Hc, Hb.
    destruct (Z.eq_dec e (-1074)) as [He|He].
    + (* lowest binade: the quotient keeps the exponent *)
      replace (Z.min _ _) with e
        by (unfold SpecFloat.fexp, SpecFloat.emin, prec, emax; lia).
      replace (e - -52 - e) with 52 by lia.
      rewrite Z.shiftl_mul_pow2 by lia.
      rewrite (div_eucl_pow2 m 52 0) by lia.
      rewrite Z.pow_0_r, Z.mul_1_r.
      change (new_location (Z.pos one_mantissa) 0) with loc_Exact.
      now apply round_canonical.
    + (* normal numbers: one more quotient bit, shifted out again *)
      assert (Hd : Z.pos (digits2_pos m) = 53) by lia.
      replace (Z.min _ _) with (e - 1)
        by (unfold SpecFloat.fexp, SpecFloat.emin, prec, emax; lia).
      replace (e - -52 - (e - 1)) with 53 by lia.
      rewrite Z.shiftl_mul_pow2 by lia.
      rewrite (div_eucl_pow2 m 53 1) by lia.
      change (new_location (Z.pos one_mantissa) 0) with loc_Exact.
      replace (Z.pos m * 2 ^ 1) with (Z.pos m~0) by lia.
      now apply round_doubled.
Qed.

(** [x / 1.0] is [x] for every binary64 value: zeros and infinities keep
    their sign, NaN stays NaN, finite values are reproduced bit for bit. *)
Lemma div_one (x : float) : (x / 1)%float = x.
Proof.
  apply Prim2SF_inj. rewrite div_spec, Prim2SF_one.
  apply SF64div_one, Prim2SF_valid.
Qed.

End Binary64.

(** ** IEEE binary64: division by zero and subtraction *)

Module Binary64Arith.

Lemma Prim2SF_pos_zero : Prim2SF 0%float = S754_zero false.
Proof. vm_compute. reflexivity. Qed.

(** Division by a zero: a finite nonzero dividend gives an infinity whose
    sign is the product of the signs, a zero dividend gives NaN. *)
Lemma div_by_zero (x f : float) (sf : bool) :
  Prim2SF f = S754_zero sf →
  match Prim2SF x with
  | S754_finite s _ _ | S754_infinity s => Prim2SF (x / f) = S754_infinity (xorb s sf)
  | S754_zero _ | S754_nan => Prim2SF (x / f) = S754_nan
  end.
Proof.
  intros Hf. rewrite div_spec, Hf. by destruct (Prim2SF x).
Qed.






Lemma SFsub_diag (x : spec_float) :
  SF64sub x x = match x with
                | S754_infinity _ | S754_nan => S754_nan
                | _ => S754_zero false
                end.
Proof.
  unfold SF64sub. destruct x as [s|s| |s m e]; simpl; try done.
  - by destruct s.
  - by destruct s.
  - rewrite Z.min_id. by rewrite Z.sub_diag.
Qed.

Lemma Prim2SF_nan : Prim2SF nan = S754_nan.
Proof. vm_compute. reflexivity. Qed.

Lemma Prim2SF_infinity : Prim2SF infinity = S754_infinity false.
Proof. vm_compute. reflexivity. Qed.

Lemma SFcompare_refl (x : spec_float) :
  SFcompare x x = match x with S754_nan => None | _ => Some Eq end.
Proof.
  destruct x as [s|s| |s m e]; simpl; try done.
  - by destruct s.
  - rewrite Z.compare_refl. fold (Pos.compare m m). rewrite Pos.compare_refl.
    by destruct s.
Qed.


Lemma is_finite_spec (x : float) :
  is_finite x = match Prim2SF x with
                | S754_infinity _ | S754_nan => false
                | _ => true
                end.
Proof.
  unfold is_finite, is_nan, is_infinity.
  rewrite !FloatAxioms.eqb_spec, abs_spec, Prim2SF_infinity. unfold SFeqb.
  rewrite SFcompare_refl.
  destruct (Prim2SF x) as [s|s| |s m e]; simpl; try done.
Qed.




(** [x - x] is [+0] for a finite [x] and NaN for an infinite or NaN [x]. *)
Lemma sub_diag (x : float) :
  (x - x)%float = if is_finite x then 0%float else nan.
Proof.
  apply Prim2SF_inj. rewrite sub_spec, SFsub_diag, is_finite_spec.
  destruct (Prim2SF x); by rewrite ?Prim2SF_pos_zero, ?Prim2SF_nan.
Qed.

End Binary64Arith.

(** ** Shared-memory views

    [SharedMemView<T*>] is a vector and [SharedMemView<T**>] a matrix stored
    by rows; [v(i)] and [v(i,j)] index them.  The views are unchecked in the
    source: an index outside the extents is undefined behaviour there and is
    a lookup of [None], or an update that changes nothing, here. *)

Abbreviation SharedMemView1 A := (list A).
Abbreviation SharedMemView2 A := (list (list A)).

Definition view2_at {A} (v : SharedMemView2 A) (i j : nat) : option A :=
  row ← v !! i; row !! j.

(** [v(i,j) = g (v(i,j))], as in [v(i,j) /= f]. *)
Definition view2_alter {A} (g : A → A) (i j : nat) (v : SharedMemView2 A)
  : SharedMemView2 A :=
  alter (alter g j) i v.

(** The extents of a matrix view: the length of every row. *)
Definition extents2 {A} (v : SharedMemView2 A) : list nat := length <$> v.

Definition square {A} (n : nat) (v : SharedMemView2 A) : Prop :=
  extents2 v = replicate n n.

(** ** SIMD values

    [DoubleType] packs [simdLen] doubles, one per element lane;
    [stk::simd::get_data(x, lane)] reads one of them. *)

Abbreviation DoubleType := (list float).

Definition get_data (x : DoubleType) (lane : nat) : float :=
  default 0%float (x !! lane).

Section Assembly.

(** The platform's SIMD width, and the collaborators the algorithm only
    passes through: the time integrator handed to [Kernel::setup] and the
    per-element gathered field data handed to [Kernel::execute]. *)
Variable simdLen : nat.
Variables TimeIntegrator ElemData : Type.

Definition simd_zero : DoubleType := replicate simdLen 0%float.

(** Modelled from the spec: [set_zero] is declared in a header that is not
    among the sources; each batch starts with "zero a batched local LHS/RHS":
    [set_zero(v.data(), v.size())] makes every entry the zero vector. *)
Definition set_zero1 (v : SharedMemView1 DoubleType) : SharedMemView1 DoubleType :=
  (λ _, simd_zero) <$> v.
Definition set_zero2 (v : SharedMemView2 DoubleType) : SharedMemView2 DoubleType :=
  (λ row : list DoubleType, (λ _, simd_zero) <$> row) <$> v.

(** Modelled from the spec: [extract_vector_lane] lives in CopyAndInterleave.h,
    which is not among the sources; the algorithm "extracts that lane's scalar
    LHS/RHS from the batched (vectorized) representation", entry by entry. *)
Definition extract_vector_lane1 (simdrhs : SharedMemView1 DoubleType)
    (simdIndex : nat) : SharedMemView1 float :=
  (λ x, get_data x simdIndex) <$> simdrhs.
Definition extract_vector_lane2 (simdlhs : SharedMemView2 DoubleType)
    (simdIndex : nat) : SharedMemView2 float :=
  (λ row : list DoubleType, (λ x, get_data x simdIndex) <$> row) <$> simdlhs.

(** The gathered data of the elements of one batch (the source's
    [ScratchViews<DoubleType>], interleaved by lane). *)
Abbreviation ScratchViews := (list ElemData).

(** ** Kernels

    [Kernel] is the source's abstract class: [setup] updates the kernel from
    the time integrator, [execute] writes through the two views it is given
    and is embedded as returning their new contents. *)
Class Kernel (K : Type) : Type := {
  setup : TimeIntegrator → K → K;
  execute : K → SharedMemView2 DoubleType → SharedMemView1 DoubleType →
            ScratchViews → SharedMemView2 DoubleType * SharedMemView1 DoubleType
}.

(** A kernel writes entries of the views and cannot resize them. *)
Definition preserves_extents `{Kernel K} (k : K) : Prop :=
  ∀ lhs rhs sv,
    extents2 (execute k lhs rhs sv).1 = extents2 lhs ∧
    length (execute k lhs rhs sv).2 = length rhs.

Context `{Kernel K}.

(** ** Collaborators of the constructor *)

(** Modelled from the spec: [SolutionOptions::get_relaxation_factor] is not
    among the sources; the configuration supplies a "per-equation relaxation
    factor (a positive real, 1.0 = no relaxation)", looked up by the
    equation's degree-of-freedom name. *)
Record SolutionOptions := { get_relaxation_factor : string → float }.

Record LinearSystem := { numDof : N }.

Record EquationSystem := {
  dofName_ : string;
  linsys_ : LinearSystem
}.

(** The nodes an element is connected to, as the mesh store tells them. *)
Abbreviation ConnectedNodes := (list Z).

Record Element := {
  elemNodes : ConnectedNodes;
  elemData : ElemData
}.

(** The selected part of the mesh: buckets of elements. *)
Abbreviation BulkData := (list (list Element)).

Record Realm := {
  solutionOptions_ : SolutionOptions;
  timeIntegrator_ : TimeIntegrator;
  bulk_data : BulkData
}.

Inductive EntityRank := NODE_RANK | EDGE_RANK | FACE_RANK | ELEM_RANK.

(** ** 32-bit integers *)

Definition to_unsigned (z : Z) : Z := (z mod 2 ^ 32)%Z.

(** Conversion of an [unsigned] value to [int]. *)
Definition to_int (z : Z) : Z :=
  let u := to_unsigned z in
  if (u <? 2 ^ 31)%Z then u else (u - 2 ^ 32)%Z.

(** ** AssembleElemSolverAlgorithm *)

Record AssembleElemSolverAlgorithm := {
  realm_ : Realm;
  eqSystem_ : EquationSystem;
  activeKernels_ : list K;
  diagRelaxFactor_ : float;
  entityRank_ : EntityRank;
  nodesPerEntity_ : N;
  rhsSize_ : Z;
  interleaveMEViews_ : bool
}.

(** Modelled from the spec: the in-class initializer of [diagRelaxFactor_] is
    in AssembleElemSolverAlgorithm.h, which is not among the sources; the
    configuration contract reads "1.0 = no relaxation" and the pressure
    equation "uses no relaxation". *)
Definition diagRelaxFactor_default : float := 1%float.

(** What the constructor asks of the configuration. *)
Inductive ConfigRead := ReadRelaxationFactor (dofName : string).

(** The constructor, with the configuration reads it makes.  [rhsSize_] is
    the [unsigned] product [nodesPerEntity * numDof()] stored in an [int],
    the type of the loop counter it bounds in [execute].  (The [part]
    argument and the member [dataNeededByKernels_] hold part and field
    handles of the mesh store and take no part in [execute]'s arithmetic.) *)
Definition AssembleElemSolverAlgorithm_ctor (realm : Realm)
    (eqSystem : EquationSystem) (entityRank : EntityRank)
    (nodesPerEntity : N) (interleaveMEViews : bool)
  : AssembleElemSolverAlgorithm * list ConfigRead :=
  let this := {|
    realm_ := realm;
    eqSystem_ := eqSystem;
    activeKernels_ := [];
    diagRelaxFactor_ := diagRelaxFactor_default;
    entityRank_ := entityRank;
    nodesPerEntity_ := nodesPerEntity;
    rhsSize_ := to_int (to_unsigned (Z.of_N nodesPerEntity * Z.of_N (numDof (linsys_ eqSystem))));
    interleaveMEViews_ := interleaveMEViews |} in
  if decide (dofName_ eqSystem ≠ "pressure") then
    ({| realm_ := realm_ this;
        eqSystem_ := eqSystem_ this;
        activeKernels_ := activeKernels_ this;
        diagRelaxFactor_ :=
          get_relaxation_factor (solutionOptions_ realm) (dofName_ eqSystem);
        entityRank_ := entityRank_ this;
        nodesPerEntity_ := nodesPerEntity_ this;
        rhsSize_ := rhsSize_ this;
        interleaveMEViews_ := interleaveMEViews_ this |},
     [ReadRelaxationFactor (dofName_ eqSystem)])
  else (this, []).

(** [activeKernels_] is filled by the equation system after construction. *)
Definition set_activeKernels (ks : list K) (a : AssembleElemSolverAlgorithm)
  : AssembleElemSolverAlgorithm :=
  {| realm_ := realm_ a;
     eqSystem_ := eqSystem_ a;
     activeKernels_ := ks;
     diagRelaxFactor_ := diagRelaxFactor_ a;
     entityRank_ := entityRank_ a;
     nodesPerEntity_ := nodesPerEntity_ a;
     rhsSize_ := rhsSize_ a;
     interleaveMEViews_ := interleaveMEViews_ a |}.

(** ** The per-batch shared memory *)

Record SharedMemData := {
  simdPrereqData : ScratchViews;
  ngpElemNodes : list ConnectedNodes;
  numSimdElems : Z;
  simdrhs : SharedMemView1 DoubleType;
  simdlhs : SharedMemView2 DoubleType;
  rhs : SharedMemView1 float;
  lhs : SharedMemView2 float;
  scratchIds : SharedMemView1 Z;
  sortPermutation : SharedMemView1 Z
}.

Definition set_simd (l : SharedMemView2 DoubleType) (r : SharedMemView1 DoubleType)
    (sm : SharedMemData) : SharedMemData :=
  {| simdPrereqData := simdPrereqData sm;
     ngpElemNodes := ngpElemNodes sm;
     numSimdElems := numSimdElems sm;
     simdrhs := r;
     simdlhs := l;
     rhs := rhs sm;
     lhs := lhs sm;
     scratchIds := scratchIds sm;
     sortPermutation := sortPermutation sm |}.

Definition set_rhs (r : SharedMemView1 float) (sm : SharedMemData) : SharedMemData :=
  {| simdPrereqData := simdPrereqData sm;
     ngpElemNodes := ngpElemNodes sm;
     numSimdElems := numSimdElems sm;
     simdrhs := simdrhs sm;
     simdlhs := simdlhs sm;
     rhs := r;
     lhs := lhs sm;
     scratchIds := scratchIds sm;
     sortPermutation := sortPermutation sm |}.

Definition set_lhs (l : SharedMemView2 float) (sm : SharedMemData) : SharedMemData :=
  {| simdPrereqData := simdPrereqData sm;
     ngpElemNodes := ngpElemNodes sm;
     numSimdElems := numSimdElems sm;
     simdrhs := simdrhs sm;
     simdlhs := simdlhs sm;
     rhs := rhs sm;
     lhs := l;
     scratchIds := scratchIds sm;
     sortPermutation := sortPermutation sm |}.

(** ** The scatter

    Modelled from the spec: [SolverAlgorithm::apply_coeff] is not among the
    sources; it hands the local system to "a sink accepting a local dense
    (rows×cols) matrix and (rows) vector plus a global-row mapping for
    scatter", which is outside the core.  A call is recorded with the
    arguments it receives (the [__FILE__] tag apart). *)
Record ApplyCoeffCall := {
  ac_numMeshobjs : N;
  ac_symMeshobjs : ConnectedNodes;
  ac_scratchIds : SharedMemView1 Z;
  ac_sortPermutation : SharedMemView1 Z;
  ac_rhs : SharedMemView1 float;
  ac_lhs : SharedMemView2 float
}.

Definition apply_coeff (numMeshobjs : N) (symMeshobjs : ConnectedNodes)
    (ids perm : SharedMemView1 Z) (r : SharedMemView1 float)
    (l : SharedMemView2 float) : ApplyCoeffCall :=
  {| ac_numMeshobjs := numMeshobjs;
     ac_symMeshobjs := symMeshobjs;
     ac_scratchIds := ids;
     ac_sortPermutation := perm;
     ac_rhs := r;
     ac_lhs := l |}.

(** ** execute *)

(** [for (ir = 0; ir < rhsSize_; ++ir) lhs(ir, ir) /= diagRelaxFactor_;] *)
Definition relax_diagonal (rhsSize : Z) (factor : float)
    (l : SharedMemView2 float) : SharedMemView2 float :=
  foldl (λ l ir, view2_alter (λ x, (x / factor)%float) ir ir l)
        l (seq 0 (Z.to_nat rhsSize)).

(** The kernel loop of the lambda: zero the batched system, then let every
    active kernel write into it, in registration order. *)
Definition execute_kernels (a : AssembleElemSolverAlgorithm) (sm : SharedMemData)
  : SharedMemData :=
  let sm := set_simd (set_zero2 (simdlhs sm)) (set_zero1 (simdrhs sm)) sm in
  foldl (λ sm k,
           let out := execute k (simdlhs sm) (simdrhs sm) (simdPrereqData sm) in
           set_simd out.1 out.2 sm)
        sm (activeKernels_ a).

(** One turn of the lane loop: extract, relax the diagonal, scatter. *)
Definition scatter_lane (a : AssembleElemSolverAlgorithm)
    (st : SharedMemData * list ApplyCoeffCall) (simdElemIndex : nat)
  : SharedMemData * list ApplyCoeffCall :=
  let sm := set_rhs (extract_vector_lane1 (simdrhs st.1) simdElemIndex) st.1 in
  let sm := set_lhs (extract_vector_lane2 (simdlhs sm) simdElemIndex) sm in
  let sm := set_lhs (relax_diagonal (rhsSize_ a) (diagRelaxFactor_ a) (lhs sm)) sm in
  (sm, st.2 ++ [apply_coeff (nodesPerEntity_ a) (ngpElemNodes sm !!! simdElemIndex)
                            (scratchIds sm) (sortPermutation sm) (rhs sm) (lhs sm)]).

(** The lambda handed to [run_algorithm], as compiled for the host
    ([KOKKOS_ENABLE_CUDA] undefined; with it defined the kernel and lane
    loops are compiled out and nothing is scattered). *)
Definition execute_lambda (a : AssembleElemSolverAlgorithm) (smdata : SharedMemData)
  : SharedMemData * list ApplyCoeffCall :=
  foldl (scatter_lane a) (execute_kernels a smdata, [])
        (seq 0 (Z.to_nat (numSimdElems smdata))).

(** Modelled from the spec: [run_algorithm] and the [SharedMemData]
    constructor are in headers that are not among the sources.  The batch loop
    runs "over groups of elements sized to the platform's SIMD width, last
    batch possibly partial"; the local system is "a dense
    (nodesPerElement·dof)×(nodesPerElement·dof) matrix and
    (nodesPerElement·dof)-length vector, batched across a SIMD-width group of
    elements; created fresh per batch". *)
Fixpoint simd_groups_of (fuel : nat) (bucket : list Element) : list (list Element) :=
  match fuel, bucket with
  | S fuel, _ :: _ => take simdLen bucket :: simd_groups_of fuel (drop simdLen bucket)
  | _, _ => []
  end.

Definition simd_groups (bucket : list Element) : list (list Element) :=
  simd_groups_of (length bucket) bucket.

Definition new_SharedMemData (rhsSize : Z) (group : list Element) : SharedMemData :=
  let n := Z.to_nat rhsSize in
  {| simdPrereqData := elemData <$> group;
     ngpElemNodes := elemNodes <$> group;
     numSimdElems := Z.of_nat (length group);
     simdrhs := replicate n simd_zero;
     simdlhs := replicate n (replicate n simd_zero);
     rhs := replicate n 0%float;
     lhs := replicate n (replicate n 0%float);
     scratchIds := replicate n 0%Z;
     sortPermutation := replicate n 0%Z |}.

Definition run_algorithm (rhsSize : Z) (bulk : BulkData)
    (lambdaFunc : SharedMemData → SharedMemData * list ApplyCoeffCall)
  : list ApplyCoeffCall :=
  group ← (bucket ← bulk; simd_groups bucket);
  (lambdaFunc (new_SharedMemData rhsSize group)).2.

(** [execute]: set up every active kernel, then run the lambda over the
    batches; the result is the algorithm with its kernels set up and the
    scatter calls made, in order. *)
Definition execute_setup (a : AssembleElemSolverAlgorithm) : AssembleElemSolverAlgorithm :=
  set_activeKernels (setup (timeIntegrator_ (realm_ a)) <$> activeKernels_ a) a.

Definition AssembleElemSolverAlgorithm_execute (a : AssembleElemSolverAlgorithm)
  : AssembleElemSolverAlgorithm * list ApplyCoeffCall :=
  let a := execute_setup a in
  (a, run_algorithm (rhsSize_ a) (bulk_data (realm_ a)) (execute_lambda a)).

(** ** Names for what [execute] produces

    The batches [run_algorithm] forms, the batched system after the kernel
    loop, the lane's local system as [extract_vector_lane] leaves it, and the
    scatter calls of one batch. *)
Definition batches (a : AssembleElemSolverAlgorithm) : list (list Element) :=
  bucket ← bulk_data (realm_ a); simd_groups bucket.

Definition batch_simd (a : AssembleElemSolverAlgorithm) (group : list Element)
  : SharedMemData :=
  execute_kernels a (new_SharedMemData (rhsSize_ a) group).

Definition extracted_lhs (a : AssembleElemSolverAlgorithm) (group : list Element)
    (lane : nat) : SharedMemView2 float :=
  extract_vector_lane2 (simdlhs (batch_simd a group)) lane.

Definition extracted_rhs (a : AssembleElemSolverAlgorithm) (group : list Element)
    (lane : nat) : SharedMemView1 float :=
  extract_vector_lane1 (simdrhs (batch_simd a group)) lane.

Definition batch_scatter (a : AssembleElemSolverAlgorithm) (group : list Element)
  : list ApplyCoeffCall :=
  (execute_lambda a (new_SharedMemData (rhsSize_ a) group)).2.

(** ** Facts about views and the relaxation loop *)

Lemma view2_at_alter {A} (g : A → A) (i j i' j' : nat) (v : SharedMemView2 A) :
  view2_at (view2_alter g i j v) i' j' =
  if decide (i = i' ∧ j = j') then g <$> view2_at v i' j' else view2_at v i' j'.
Proof.
  unfold view2_at, view2_alter.
  destruct (decide (i = i')) as [->|Hi].
  - rewrite list_lookup_alter_eq. destruct (v !! i') as [row|]; simpl.
    + destruct (decide (j = j')) as [->|Hj].
      * rewrite list_lookup_alter_eq. by rewrite decide_True.
      * rewrite list_lookup_alter_ne by done. rewrite decide_False; [done | tauto].
    + by case_decide.
  - rewrite list_lookup_alter_ne by done. rewrite decide_False; [done | tauto].
Qed.

Lemma extents2_alter {A} (g : A → A) (i j : nat) (v : SharedMemView2 A) :
  extents2 (view2_alter g i j v) = extents2 v.
Proof.
  unfold extents2, view2_alter. apply list_eq. intros k.
  rewrite !list_lookup_fmap.
  destruct (decide (i = k)) as [->|Hk].
  - rewrite list_lookup_alter_eq. destruct (v !! k); simpl; [|done].
    by rewrite length_alter.
  - by rewrite list_lookup_alter_ne.
Qed.

Lemma view2_alter_id {A} (g : A → A) (i j : nat) (v : SharedMemView2 A) :
  (∀ x, g x = x) → view2_alter g i j v = v.
Proof.
  intros Hg. unfold view2_alter. apply list_alter_id. intros row.
  by apply list_alter_id.
Qed.

Lemma square_at {A} (n i j : nat) (v : SharedMemView2 A) :
  square n v → (is_Some (view2_at v i j) ↔ i < n ∧ j < n).
Proof.
  unfold square, extents2, view2_at. intros Hv.
  pose proof (f_equal (λ l, l !! i) Hv) as Hi. simpl in Hi.
  rewrite list_lookup_fmap in Hi.
  destruct (v !! i) as [row|] eqn:Hrow; simpl in *.
  - symmetry in Hi. apply lookup_replicate in Hi as [Hlen Hlt].
    rewrite lookup_lt_is_Some. lia.
  - symmetry in Hi. apply lookup_replicate_None in Hi.
    split; [by intros [? ?] | lia].
Qed.

Section relax.
Context (factor : float).

Lemma relax_diagonal_at (rhsSize : Z) (l : SharedMemView2 float) (i j : nat) :
  view2_at (relax_diagonal rhsSize factor l) i j =
  if decide (i = j ∧ (Z.of_nat i < rhsSize)%Z)
  then (λ x, (x / factor)%float) <$> view2_at l i j
  else view2_at l i j.
Proof.
  unfold relax_diagonal.
  assert (Hn : ∀ n : nat,
    view2_at (foldl (λ l ir, view2_alter (λ x, (x / factor)%float) ir ir l)
                    l (seq 0 n)) i j =
    if decide (i = j ∧ i < n)
    then (λ x, (x / factor)%float) <$> view2_at l i j
    else view2_at l i j).
  { induction n as [|n IH].
    - simpl. rewrite decide_False; [done | lia].
    - rewrite seq_S, foldl_app. simpl. rewrite view2_at_alter, IH.
      repeat case_decide; try done; lia. }
  rewrite Hn. repeat case_decide; try done; lia.
Qed.

Lemma relax_diagonal_extents (rhsSize : Z) (l : SharedMemView2 float) :
  extents2 (relax_diagonal rhsSize factor l) = extents2 l.
Proof.
  unfold relax_diagonal. generalize (seq 0 (Z.to_nat rhsSize)) as irs.
  intros irs. revert l. induction irs as [|ir irs IH]; intros l; simpl; [done|].
  by rewrite IH, extents2_alter.
Qed.
End relax.

Lemma relax_diagonal_one (rhsSize : Z) (l : SharedMemView2 float) :
  relax_diagonal rhsSize 1 l = l.
Proof.
  unfold relax_diagonal. generalize (seq 0 (Z.to_nat rhsSize)) as irs.
  intros irs. revert l. induction irs as [|ir irs IH]; intros l; simpl; [done|].
  rewrite view2_alter_id by apply Binary64.div_one. apply IH.
Qed.

(** ** The lane loop *)

(** What one lane hands to the scatter, read off the batched system. *)
Definition lane_call (a : AssembleElemSolverAlgorithm) (sm : SharedMemData)
    (lane : nat) : ApplyCoeffCall :=
  apply_coeff (nodesPerEntity_ a) (ngpElemNodes sm !!! lane)
    (scratchIds sm) (sortPermutation sm)
    (extract_vector_lane1 (simdrhs sm) lane)
    (relax_diagonal (rhsSize_ a) (diagRelaxFactor_ a)
       (extract_vector_lane2 (simdlhs sm) lane)).

(** Two states of one batch that differ in the scalar buffers only. *)
Definition same_batch (sm sm' : SharedMemData) : Prop :=
  simdrhs sm = simdrhs sm' ∧ simdlhs sm = simdlhs sm' ∧
  ngpElemNodes sm = ngpElemNodes sm' ∧
  scratchIds sm = scratchIds sm' ∧ sortPermutation sm = sortPermutation sm'.

Lemma scatter_lane_step a st sm lane :
  same_batch st.1 sm →
  same_batch (scatter_lane a st lane).1 sm ∧
  (scatter_lane a st lane).2 = st.2 ++ [lane_call a sm lane].
Proof.
  destruct st as [sm0 out]. intros (Hr & Hl & Hn & Hi & Hp). simpl in *.
  unfold scatter_lane, lane_call, same_batch. simpl.
  by rewrite Hr, Hl, Hn, Hi, Hp.
Qed.

Lemma scatter_lanes a lanes : ∀ st sm,
  same_batch st.1 sm →
  (foldl (scatter_lane a) st lanes).2 = st.2 ++ (lane_call a sm <$> lanes).
Proof.
  induction lanes as [|lane lanes IH]; intros st sm Hst; simpl.
  - by rewrite app_nil_r.
  - destruct (scatter_lane_step a st sm lane Hst) as [Hs Ho].
    rewrite (IH _ sm Hs), Ho, <- app_assoc. done.
Qed.

Lemma batch_scatter_eq a group :
  batch_scatter a group = lane_call a (batch_simd a group) <$> seq 0 (length group).
Proof.
  unfold batch_scatter, execute_lambda, batch_simd.
  rewrite (scatter_lanes a _ _ (execute_kernels a (new_SharedMemData (rhsSize_ a) group)))
    by (by unfold same_batch).
  simpl. by rewrite Nat2Z.id.
Qed.

Lemma batch_scatter_lookup a group lane :
  lane < length group →
  batch_scatter a group !! lane = Some (lane_call a (batch_simd a group) lane).
Proof.
  intros Hl. rewrite batch_scatter_eq, list_lookup_fmap, lookup_seq_lt by done.
  done.
Qed.

Lemma execute_trace a0 :
  (AssembleElemSolverAlgorithm_execute a0).2 =
  group ← batches (execute_setup a0); batch_scatter (execute_setup a0) group.
Proof. reflexivity. Qed.

Lemma batch_call_in_trace a0 b group lane call :
  batches (execute_setup a0) !! b = Some group →
  batch_scatter (execute_setup a0) group !! lane = Some call →
  call ∈ (AssembleElemSolverAlgorithm_execute a0).2.
Proof.
  intros Hb Hc. rewrite execute_trace. apply list_elem_of_bind.
  exists group. split; eapply list_elem_of_lookup_2; eauto.
Qed.

Lemma lane_call_lhs a group lane :
  ac_lhs (lane_call a (batch_simd a group) lane) =
  relax_diagonal (rhsSize_ a) (diagRelaxFactor_ a) (extracted_lhs a group lane).
Proof. reflexivity. Qed.

Lemma lane_call_rhs a group lane :
  ac_rhs (lane_call a (batch_simd a group) lane) = extracted_rhs a group lane.
Proof. reflexivity. Qed.

(** ** The kernel loop keeps the extents *)

Lemma extents2_set_zero2 (v : SharedMemView2 DoubleType) :
  extents2 (set_zero2 v) = extents2 v.
Proof.
  unfold extents2, set_zero2. rewrite <- list_fmap_compose.
  apply list_fmap_ext. intros _ row _. simpl. by rewrite length_fmap.
Qed.

Lemma extents2_extract (v : SharedMemView2 DoubleType) (lane : nat) :
  extents2 (extract_vector_lane2 v lane) = extents2 v.
Proof.
  unfold extents2, extract_vector_lane2. rewrite <- list_fmap_compose.
  apply list_fmap_ext. intros _ row _. simpl. by rewrite length_fmap.
Qed.

Lemma kernel_loop_extents (ks : list K) : ∀ sm,
  Forall preserves_extents ks →
  extents2 (simdlhs (foldl (λ sm k,
      let out := execute k (simdlhs sm) (simdrhs sm) (simdPrereqData sm) in
      set_simd out.1 out.2 sm) sm ks)) = extents2 (simdlhs sm).
Proof.
  induction ks as [|k ks IH]; intros sm Hks; simpl; [done|].
  apply Forall_cons in Hks as [Hk Hks].
  rewrite IH by done. simpl. apply Hk.
Qed.

Lemma batch_simd_square a group :
  Forall preserves_extents (activeKernels_ a) →
  square (Z.to_nat (rhsSize_ a)) (simdlhs (batch_simd a group)).
Proof.
  intros Hks. unfold square, batch_simd, execute_kernels.
  rewrite kernel_loop_extents by done. simpl.
  rewrite extents2_set_zero2. unfold extents2.
  rewrite fmap_replicate. by rewrite length_replicate.
Qed.

Lemma extracted_lhs_square a group lane :
  Forall preserves_extents (activeKernels_ a) →
  square (Z.to_nat (rhsSize_ a)) (extracted_lhs a group lane).
Proof.
  intros Hks. unfold square, extracted_lhs. rewrite extents2_extract.
  by apply batch_simd_square.
Qed.

(** ** 32-bit size arithmetic *)

Lemma to_int_unsigned_le (p : Z) : (0 ≤ p)%Z → (to_int (to_unsigned p) ≤ p)%Z.
Proof.
  intros Hp. unfold to_int, to_unsigned.
  rewrite Z.mod_mod by lia.
  pose proof (Z.mod_pos_bound p (2 ^ 32) ltac:(lia)).
  pose proof (Z.mod_le p (2 ^ 32) Hp ltac:(lia)).
  case_match; lia.
Qed.

Lemma ctor_rhsSize_le realm eqSystem entityRank nodesPerEntity interleaveMEViews :
  (rhsSize_ (AssembleElemSolverAlgorithm_ctor realm eqSystem entityRank
               nodesPerEntity interleaveMEViews).1
   ≤ Z.of_N nodesPerEntity * Z.of_N (numDof (linsys_ eqSystem)))%Z.
Proof.
  unfold AssembleElemSolverAlgorithm_ctor.
  case_decide; simpl; apply to_int_unsigned_le; lia.
Qed.

(** ** Diagonal relaxation in the lane loop *)

Section lane_loop_properties.
Context (realm : Realm) (eqSystem : EquationSystem) (entityRank : EntityRank)
        (nodesPerEntity : N) (interleaveMEViews : bool) (kernels : list K).

(** The algorithm as constructed for [eqSystem], with its kernels
    registered, and as [execute] leaves it after the setup loop. *)
Let a0 : AssembleElemSolverAlgorithm :=
  set_activeKernels kernels
    (AssembleElemSolverAlgorithm_ctor realm eqSystem entityRank
       nodesPerEntity interleaveMEViews).1.
Let a : AssembleElemSolverAlgorithm := (AssembleElemSolverAlgorithm_execute a0).1.

(** C1. In every batch and for every lane, the local LHS handed to the
    scatter carries, at every diagonal entry of the extracted LHS, the
    extracted value divided by the algorithm's relaxation factor (the
    configured factor of the equation, for every equation but pressure):
    the binary64 quotient [x / r] in general, and [x] itself when the factor
    is 1.0.
    The extracted LHS is square of dimension [rhsSize_], so every one of
    its diagonal entries is covered. *)
Theorem diagonal_divided_by_relaxation_factor (b lane : nat) (group : list Element) :
  Forall preserves_extents (activeKernels_ a) →
  batches a !! b = Some group →
  lane < length group →
  (dofName_ eqSystem ≠ "pressure" →
     diagRelaxFactor_ a =
     get_relaxation_factor (solutionOptions_ realm) (dofName_ eqSystem)) ∧
  square (Z.to_nat (rhsSize_ a)) (extracted_lhs a group lane) ∧
  ∃ call,
    batch_scatter a group !! lane = Some call ∧
    call ∈ (AssembleElemSolverAlgorithm_execute a0).2 ∧
    ∀ ir x,
      view2_at (extracted_lhs a group lane) ir ir = Some x →
      view2_at (ac_lhs call) ir ir = Some (x / diagRelaxFactor_ a)%float ∧
      (diagRelaxFactor_ a = 1%float → view2_at (ac_lhs call) ir ir = Some x).
Proof.
  intros Hks Hb Hlane. split; [|split].
  - intros Hne. subst a a0. simpl. unfold AssembleElemSolverAlgorithm_ctor.
    by rewrite decide_True.
  - by apply extracted_lhs_square.
  - exists (lane_call a (batch_simd a group) lane).
    assert (Hc := batch_scatter_lookup a group lane Hlane).
    split; [done|]. split; [by eapply batch_call_in_trace|].
    intros ir x Hx. rewrite lane_call_lhs.
    assert (Hir : ir < Z.to_nat (rhsSize_ a)).
    { apply (square_at _ ir ir _ (extracted_lhs_square a group lane Hks)). eauto. }
    rewrite relax_diagonal_at, decide_True, Hx by lia.
    split; [done|]. intros ->. simpl. f_equal. apply Binary64.div_one.
Qed.

(** C2. For the pressure equation the constructor makes no read of the
    configured relaxation factor and keeps the default factor, whatever
    the configuration holds; in every batch and for every lane the local
    LHS handed to the scatter is the extracted one, diagonal included. *)
Theorem pressure_diagonal_unrelaxed (b lane : nat) (group : list Element) :
  dofName_ eqSystem = "pressure" →
  batches a !! b = Some group →
  lane < length group →
  (AssembleElemSolverAlgorithm_ctor realm eqSystem entityRank
     nodesPerEntity interleaveMEViews).2 = [] ∧
  diagRelaxFactor_ a = diagRelaxFactor_default ∧
  ∃ call,
    batch_scatter a group !! lane = Some call ∧
    call ∈ (AssembleElemSolverAlgorithm_execute a0).2 ∧
    ac_lhs call = extracted_lhs a group lane ∧
    ∀ ir, view2_at (ac_lhs call) ir ir =
          view2_at (extracted_lhs a group lane) ir ir.
Proof.
  intros Hp Hb Hlane.
  assert (Hf : diagRelaxFactor_ a = diagRelaxFactor_default).
  { subst a a0. simpl. unfold AssembleElemSolverAlgorithm_ctor.
    rewrite decide_False; [done|]. by intros []. }
  split; [|split; [done|]].
  - unfold AssembleElemSolverAlgorithm_ctor.
    rewrite decide_False; [done|]. by intros [].
  - exists (lane_call a (batch_simd a group) lane).
    assert (Hc := batch_scatter_lookup a group lane Hlane).
    split; [done|]. split; [by eapply batch_call_in_trace|].
    assert (He : ac_lhs (lane_call a (batch_simd a group) lane)
                 = extracted_lhs a group lane).
    { rewrite lane_call_lhs, Hf. apply relax_diagonal_one. }
    split; [done|]. intros ir. by rewrite He.
Qed.

(** C10. Between extraction and scatter only diagonal entries [lhs(ir,ir)]
    with [ir] below [nodesPerEntity * numDof] can differ from the extracted
    local system: every other LHS entry, the extents of the LHS, and the
    whole RHS reach the scatter as extracted. *)
Theorem scatter_frame (b lane : nat) (group : list Element) :
  batches a !! b = Some group →
  lane < length group →
  ∃ call,
    batch_scatter a group !! lane = Some call ∧
    call ∈ (AssembleElemSolverAlgorithm_execute a0).2 ∧
    ac_rhs call = extracted_rhs a group lane ∧
    extents2 (ac_lhs call) = extents2 (extracted_lhs a group lane) ∧
    ∀ i j,
      ¬ (i = j ∧
         (Z.of_nat i < Z.of_N nodesPerEntity * Z.of_N (numDof (linsys_ eqSystem)))%Z) →
      view2_at (ac_lhs call) i j = view2_at (extracted_lhs a group lane) i j.
Proof.
  intros Hb Hlane.
  exists (lane_call a (batch_simd a group) lane).
  assert (Hc := batch_scatter_lookup a group lane Hlane).
  split; [done|]. split; [by eapply batch_call_in_trace|].
  split; [apply lane_call_rhs|]. rewrite lane_call_lhs.
  split; [apply relax_diagonal_extents|].
  intros i j Hij. rewrite relax_diagonal_at, decide_False; [done|].
  intros [-> Hi]. apply Hij. split; [done|].
  pose proof (ctor_rhsSize_le realm eqSystem entityRank nodesPerEntity
                interleaveMEViews) as Hle.
  subst a a0. simpl in Hi. lia.
Qed.
End lane_loop_properties.

(** ** Further properties of the lambda *)

(** One turn of the kernel loop, and the loop written with it. *)
Definition kernel_step (sm : SharedMemData) (k : K) : SharedMemData :=
  let out := execute k (simdlhs sm) (simdrhs sm) (simdPrereqData sm) in
  set_simd out.1 out.2 sm.

Lemma execute_kernels_fold a sm :
  execute_kernels a sm =
  foldl kernel_step
    (set_simd (set_zero2 (simdlhs sm)) (set_zero1 (simdrhs sm)) sm)
    (activeKernels_ a).
Proof. reflexivity. Qed.

(** The kernel loop writes the batched system only. *)
Lemma kernel_loop_frame (ks : list K) : ∀ sm,
  simdPrereqData (foldl kernel_step sm ks) = simdPrereqData sm ∧
  ngpElemNodes (foldl kernel_step sm ks) = ngpElemNodes sm ∧
  numSimdElems (foldl kernel_step sm ks) = numSimdElems sm ∧
  scratchIds (foldl kernel_step sm ks) = scratchIds sm ∧
  sortPermutation (foldl kernel_step sm ks) = sortPermutation sm.
Proof.
  induction ks as [|k ks IH]; intros sm; simpl; [done|].
  destruct (IH (kernel_step sm k)) as (-> & -> & -> & -> & ->).
  done.
Qed.

Lemma execute_kernels_frame a sm :
  simdPrereqData (execute_kernels a sm) = simdPrereqData sm ∧
  ngpElemNodes (execute_kernels a sm) = ngpElemNodes sm ∧
  numSimdElems (execute_kernels a sm) = numSimdElems sm ∧
  scratchIds (execute_kernels a sm) = scratchIds sm ∧
  sortPermutation (execute_kernels a sm) = sortPermutation sm.
Proof.
  rewrite execute_kernels_fold.
  destruct (kernel_loop_frame (activeKernels_ a)
              (set_simd (set_zero2 (simdlhs sm)) (set_zero1 (simdrhs sm)) sm))
    as (-> & -> & -> & -> & ->).
  done.
Qed.

Lemma execute_lambda_calls a sm :
  (execute_lambda a sm).2 =
  lane_call a (execute_kernels a sm) <$> seq 0 (Z.to_nat (numSimdElems sm)).
Proof.
  unfold execute_lambda.
  by rewrite (scatter_lanes a _ _ (execute_kernels a sm)) by (by unfold same_batch).
Qed.

Lemma execute_lambda_simd a sm :
  same_batch (execute_lambda a sm).1 (execute_kernels a sm).
Proof.
  unfold execute_lambda. generalize (seq 0 (Z.to_nat (numSimdElems sm))) as lanes.
  assert (Hgen : ∀ lanes st, same_batch st.1 (execute_kernels a sm) →
            same_batch (foldl (scatter_lane a) st lanes).1 (execute_kernels a sm)).
  { induction lanes as [|lane lanes IH]; intros st Hst; simpl; [done|].
    apply IH. by apply scatter_lane_step. }
  intros lanes. apply Hgen. by unfold same_batch.
Qed.

(** X1. The lambda makes one scatter call per element lane, in lane order,
    and none when [numSimdElems] is zero or negative.  Call [k] carries
    [nodesPerEntity_], the connected nodes of lane [k], lane [k] of the
    batched RHS and the relaxed lane [k] of the batched LHS; the batched
    system itself is left as the kernels wrote it. *)
Theorem lambda_scatters_each_lane (a : AssembleElemSolverAlgorithm)
    (sm : SharedMemData) :
  length (execute_lambda a sm).2 = Z.to_nat (numSimdElems sm) ∧
  (∀ k call, (execute_lambda a sm).2 !! k = Some call →
     ac_numMeshobjs call = nodesPerEntity_ a ∧
     ac_symMeshobjs call = ngpElemNodes sm !!! k ∧
     ac_rhs call = extract_vector_lane1 (simdrhs (execute_kernels a sm)) k ∧
     ac_lhs call = relax_diagonal (rhsSize_ a) (diagRelaxFactor_ a)
                     (extract_vector_lane2 (simdlhs (execute_kernels a sm)) k)) ∧
  simdlhs (execute_lambda a sm).1 = simdlhs (execute_kernels a sm) ∧
  simdrhs (execute_lambda a sm).1 = simdrhs (execute_kernels a sm).
Proof.
  split; [|split].
  - by rewrite execute_lambda_calls, length_fmap, length_seq.
  - intros k call. rewrite execute_lambda_calls, list_lookup_fmap.
    destruct (seq 0 _ !! k) as [k'|] eqn:Hk; simpl; [|done].
    apply lookup_seq in Hk as [-> _]. intros [= <-].
    destruct (execute_kernels_frame a sm) as (_ & Hn & _).
    unfold lane_call. simpl. by rewrite Hn.
  - destruct (execute_lambda_simd a sm) as (Hr & Hl & _). done.
Qed.






Lemma get_data_simd_zero (lane : nat) : get_data simd_zero lane = 0%float.
Proof.
  unfold get_data, simd_zero.
  destruct (replicate simdLen 0%float !! lane) as [x|] eqn:Hx; simpl; [|done].
  by apply lookup_replicate in Hx as [-> _].
Qed.

(** X3. With no active kernel the batched system stays zero: every scatter
    call carries a zero RHS and an LHS that is zero off the relaxed diagonal
    and [0.0 / diagRelaxFactor_] on it. *)
Theorem lambda_without_kernels (a : AssembleElemSolverAlgorithm)
    (sm : SharedMemData) (call : ApplyCoeffCall) :
  activeKernels_ a = [] →
  call ∈ (execute_lambda a sm).2 →
  (∀ i v, ac_rhs call !! i = Some v → v = 0%float) ∧
  (∀ i j v, view2_at (ac_lhs call) i j = Some v →
     v = if decide (i = j ∧ (Z.of_nat i < rhsSize_ a)%Z)
         then (0 / diagRelaxFactor_ a)%float else 0%float).
Proof.
  intros Hks Hin. rewrite execute_lambda_calls in Hin.
  apply list_elem_of_fmap in Hin as (lane & -> & _).
  unfold lane_call, execute_kernels. rewrite Hks. simpl.
  split.
  - intros i v. unfold extract_vector_lane1, set_zero1.
    rewrite !list_lookup_fmap.
    destruct (simdrhs sm !! i); simpl; [|done].
    intros [= <-]. apply get_data_simd_zero.
  - intros i j v. rewrite relax_diagonal_at.
    assert (Hz : ∀ w, view2_at (extract_vector_lane2 (set_zero2 (simdlhs sm)) lane) i j
                      = Some w → w = 0%float).
    { intros w. unfold view2_at, extract_vector_lane2, set_zero2.
      rewrite !list_lookup_fmap.
      destruct (simdlhs sm !! i) as [row|]; simpl; [|done].
      rewrite !list_lookup_fmap. destruct (row !! j); simpl; [|done].
      intros [= <-]. apply get_data_simd_zero. }
    destruct (view2_at _ i j) as [w|]; simpl; case_decide; try done.
    + intros [= <-]. by rewrite (Hz w eq_refl).
    + intros [= <-]. by apply Hz.
Qed.

(** X5. Nothing guards the division: with a relaxation factor that is a zero
    ([+0.0] or [-0.0]), every finite nonzero or infinite diagonal entry of
    the extracted LHS is scattered as an infinity and every zero or NaN
    entry as NaN. *)
Theorem zero_factor_diagonal (a : AssembleElemSolverAlgorithm)
    (sm : SharedMemData) (sf : bool) (k ir : nat) (call : ApplyCoeffCall) (x : float) :
  Prim2SF (diagRelaxFactor_ a) = S754_zero sf →
  (execute_lambda a sm).2 !! k = Some call →
  (Z.of_nat ir < rhsSize_ a)%Z →
  view2_at (extract_vector_lane2 (simdlhs (execute_kernels a sm)) k) ir ir = Some x →
  ∃ y, view2_at (ac_lhs call) ir ir = Some y ∧
       Prim2SF y = match Prim2SF x with
                   | S754_finite s _ _ | S754_infinity s => S754_infinity (xorb s sf)
                   | S754_zero _ | S754_nan => S754_nan
                   end.
Proof.
  intros Hf Hcall Hir Hx.
  rewrite execute_lambda_calls, list_lookup_fmap in Hcall.
  destruct (seq 0 _ !! k) as [k'|] eqn:Hk; simpl in Hcall; [|done].
  apply lookup_seq in Hk as [-> _]. injection Hcall as <-.
  exists (x / diagRelaxFactor_ a)%float. split.
  - unfold lane_call. simpl. rewrite relax_diagonal_at, decide_True by done.
    by rewrite Hx.
  - pose proof (Binary64Arith.div_by_zero x _ sf Hf) as Hd.
    by destruct (Prim2SF x).
Qed.

End Assembly.


(** ** A worked assembly

    Two nodes per element and one degree of freedom per node, SIMD width 2,
    three elements in one bucket (so the second batch is partial), and one
    source kernel.  The time integrator is represented by its time-step
    factor and the gathered element data by the element volume. *)

Module Worked.

(** A source kernel: adds [2·c·vol] on the diagonal, [c·vol] off it and
    [c·vol] to the residual, lane by lane. *)
Record SrcKernel := { coeff : float }.

Definition add_lanes (x : DoubleType) (ys : list float) : DoubleType :=
  imap (λ lane xl, (xl + default 0 (ys !! lane))%float) x.

Definition src_execute (k : SrcKernel) (lhs : SharedMemView2 DoubleType)
    (rhs : SharedMemView1 DoubleType) (vols : list float)
  : SharedMemView2 DoubleType * SharedMemView1 DoubleType :=
  (imap (λ i row,
           imap (λ j x,
                   add_lanes x ((λ v, if decide (i = j)
                                      then (2 * coeff k * v)%float
                                      else (coeff k * v)%float) <$> vols))
                row) lhs,
   (λ x, add_lanes x ((λ v, (coeff k * v)%float) <$> vols)) <$> rhs).

#[export] Instance SrcKernel_Kernel : Kernel float float SrcKernel := {
  setup := λ dt k, {| coeff := (coeff k * dt)%float |};
  execute := src_execute
}.

Lemma src_preserves_extents (k : SrcKernel) : preserves_extents float float k.
Proof.
  intros lhs rhs sv. simpl. split.
  - unfold extents2. apply list_eq. intros i.
    rewrite !list_lookup_fmap, list_lookup_imap.
    destruct (lhs !! i); simpl; [|done]. by rewrite length_imap.
  - by rewrite length_fmap.
Qed.

Definition relax_options : SolutionOptions :=
  {| get_relaxation_factor :=
       λ name, if decide (name = "enthalpy") then 2%float else 4%float |}.

Definition e1 : Element float := {| elemNodes := [10; 11]%Z; elemData := 1%float |}.
Definition e2 : Element float := {| elemNodes := [11; 12]%Z; elemData := 3%float |}.
Definition e3 : Element float := {| elemNodes := [12; 13]%Z; elemData := 5%float |}.

Definition realm : Realm float float :=
  {| solutionOptions_ := relax_options;
     timeIntegrator_ := 0.5%float;
     bulk_data := [[e1; e2; e3]] |}.

Definition enthalpy : EquationSystem :=
  {| dofName_ := "enthalpy"; linsys_ := {| numDof := 1 |} |}.

Definition pressure : EquationSystem :=
  {| dofName_ := "pressure"; linsys_ := {| numDof := 1 |} |}.

Definition kernel : SrcKernel := {| coeff := 1%float |}.

Definition algorithm (eq : EquationSystem)
  : AssembleElemSolverAlgorithm float float :=
  set_activeKernels float float [kernel]
    (AssembleElemSolverAlgorithm_ctor float float realm eq ELEM_RANK 2 false).1.

Example ctor_reads_enthalpy_factor :
  let r := AssembleElemSolverAlgorithm_ctor float float (K:=SrcKernel)
             realm enthalpy ELEM_RANK 2 false in
  (diagRelaxFactor_ float float r.1, rhsSize_ float float r.1, r.2)
  = (2%float, 2%Z, [ReadRelaxationFactor "enthalpy"]).
Proof. vm_compute. reflexivity. Qed.

Example ctor_reads_nothing_for_pressure :
  let r := AssembleElemSolverAlgorithm_ctor float float (K:=SrcKernel)
             realm pressure ELEM_RANK 2 false in
  (diagRelaxFactor_ float float r.1, rhsSize_ float float r.1, r.2)
  = (1%float, 2%Z, []).
Proof. vm_compute. reflexivity. Qed.

(** The scatter calls of [execute], shown by their local systems. *)
Definition local_systems (eq : EquationSystem)
  : list (list Z * list float * list (list float)) :=
  (λ c, (ac_symMeshobjs c, ac_rhs c, ac_lhs c)) <$>
  (AssembleElemSolverAlgorithm_execute 2 float float (algorithm eq)).2.

Example enthalpy_systems :
  local_systems enthalpy =
  [ ([10; 11]%Z, [0.5; 0.5]%float, [[0.5; 0.5]; [0.5; 0.5]]%float);
    ([11; 12]%Z, [1.5; 1.5]%float, [[1.5; 1.5]; [1.5; 1.5]]%float);
    ([12; 13]%Z, [2.5; 2.5]%float, [[2.5; 2.5]; [2.5; 2.5]]%float) ].
Proof. vm_compute. reflexivity. Qed.

Example pressure_systems :
  local_systems pressure =
  [ ([10; 11]%Z, [0.5; 0.5]%float, [[1; 0.5]; [0.5; 1]]%float);
    ([11; 12]%Z, [1.5; 1.5]%float, [[3; 1.5]; [1.5; 3]]%float);
    ([12; 13]%Z, [2.5; 2.5]%float, [[5; 2.5]; [2.5; 5]]%float) ].
Proof. vm_compute. reflexivity. Qed.

(** The second lane of the first batch of the enthalpy system: the
    extracted diagonal entry 3 is scattered as 3 / 2. *)
Lemma diagonal_divided_witness :
  ∃ call,
    batch_scatter 2 float float
      (AssembleElemSolverAlgorithm_execute 2 float float (algorithm enthalpy)).1
      [e1; e2] !! 1 = Some call ∧
    view2_at (ac_lhs call) 0 0 = Some 1.5%float.
Proof.
  destruct (diagonal_divided_by_relaxation_factor 2 float float
              realm enthalpy ELEM_RANK 2 false [kernel] 0 1
              [e1; e2])
    as (_ & _ & call & Hcall & _ & Hdiag).
  - apply Forall_forall. intros k _. apply src_preserves_extents.
  - vm_compute. reflexivity.
  - simpl. lia.
  - exists call. split; [exact Hcall|].
    apply (Hdiag 0 3%float). vm_compute. reflexivity.
Defined.

(** The partial second batch of the pressure system: the extracted local LHS
    reaches the scatter as it is. *)
Lemma pressure_unrelaxed_witness :
  ∃ call,
    batch_scatter 2 float float
      (AssembleElemSolverAlgorithm_execute 2 float float (algorithm pressure)).1
      [e3] !! 0 = Some call ∧
    ac_lhs call = [[5; 2.5]; [2.5; 5]]%float.
Proof.
  destruct (pressure_diagonal_unrelaxed 2 float float
              realm pressure ELEM_RANK 2 false [kernel] 1 0 [e3])
    as (_ & _ & call & Hcall & _ & Hlhs & _).
  - reflexivity.
  - vm_compute. reflexivity.
  - simpl. lia.
  - exists call. split; [exact Hcall|]. rewrite Hlhs. vm_compute. reflexivity.
Defined.

(** The first lane of the first batch of the enthalpy system: the
    off-diagonal entry and the residual are scattered as extracted. *)
Lemma scatter_frame_witness :
  ∃ call,
    batch_scatter 2 float float
      (AssembleElemSolverAlgorithm_execute 2 float float (algorithm enthalpy)).1
      [e1; e2] !! 0 = Some call ∧
    ac_rhs call = [0.5; 0.5]%float ∧
    view2_at (ac_lhs call) 0 1 = Some 0.5%float.
Proof.
  destruct (scatter_frame 2 float float
              realm enthalpy ELEM_RANK 2 false [kernel] 0 0
              [e1; e2])
    as (call & Hcall & _ & Hrhs & _ & Hoff).
  - vm_compute. reflexivity.
  - simpl. lia.
  - exists call. split; [exact Hcall|]. split.
    + rewrite Hrhs. vm_compute. reflexivity.
    + rewrite (Hoff 0 1) by (intros [? _]; lia). vm_compute. reflexivity.
Defined.

End Worked.

(** ** The lambda on one batch, worked *)

Module WorkedLambda.

Import Worked.


Definition fresh_batch : SharedMemData float :=
  new_SharedMemData 2 float 2 [e1; e2].

Definition stale_batch : SharedMemData float :=
  {| simdPrereqData := simdPrereqData float fresh_batch;
     ngpElemNodes := ngpElemNodes float fresh_batch;
     numSimdElems := numSimdElems float fresh_batch;
     simdrhs := [[7; 8]; [9; 10]]%float;
     simdlhs := [[[1; 2]; [3; 4]]; [[5; 6]; [7; 8]]]%float;
     rhs := [11; 12]%float;
     lhs := [[13; 14]; [15; 16]]%float;
     scratchIds := [41; 42]%Z;
     sortPermutation := [1; 0]%Z |}.


(** The same algorithm with no kernel registered. *)
Definition algorithm_bare : AssembleElemSolverAlgorithm float float (K:=SrcKernel) :=
  (AssembleElemSolverAlgorithm_ctor float float realm enthalpy ELEM_RANK 2 false).1.

Lemma without_kernels_witness :
  ∃ call,
    (execute_lambda 2 float float algorithm_bare stale_batch).2 !! 1 = Some call ∧
    (∀ i v, ac_rhs call !! i = Some v → v = 0%float) ∧
    view2_at (ac_lhs call) 0 1 = Some 0%float.
Proof.
  destruct ((execute_lambda 2 float float algorithm_bare stale_batch).2 !! 1)
    as [call|] eqn:Hcall; [|vm_compute in Hcall; discriminate].
  destruct (lambda_without_kernels 2 float float algorithm_bare stale_batch call)
    as [Hrhs Hlhs].
  - reflexivity.
  - by eapply list_elem_of_lookup_2.
  - exists call. split; [done|]. split; [exact Hrhs|].
    vm_compute in Hcall. injection Hcall as <-. vm_compute. reflexivity.
Defined.

(** A configuration whose relaxation factor for enthalpy is zero. *)
Definition zero_options : SolutionOptions :=
  {| get_relaxation_factor := λ _, 0%float |}.

Definition algorithm_zero_factor : AssembleElemSolverAlgorithm float float :=
  set_activeKernels float float [kernel]
    (AssembleElemSolverAlgorithm_ctor float float
       {| solutionOptions_ := zero_options;
          timeIntegrator_ := 0.5%float;
          bulk_data := [[e1; e2; e3]] |}
       enthalpy ELEM_RANK 2 false).1.

Lemma zero_factor_witness :
  ∃ call y,
    (execute_lambda 2 float float algorithm_zero_factor fresh_batch).2 !! 0 = Some call ∧
    view2_at (ac_lhs call) 0 0 = Some y ∧
    Prim2SF y = S754_infinity false.
Proof.
  destruct ((execute_lambda 2 float float algorithm_zero_factor fresh_batch).2 !! 0)
    as [call|] eqn:Hcall; [|vm_compute in Hcall; discriminate].
  destruct (zero_factor_diagonal 2 float float algorithm_zero_factor fresh_batch
              false 0 0 call 2%float) as (y & Hy & Hinf).
  - vm_compute. reflexivity.
  - exact Hcall.
  - vm_compute. reflexivity.
  - vm_compute. reflexivity.
  - exists call, y. split; [done|]. split; [exact Hy|].
    change (Prim2SF 2%float) with (S754_finite false 4503599627370496 (-51)) in Hinf.
    exact Hinf.
Defined.

End WorkedLambda.

(** * The helpers of the higher-order master-element tests

    The functions of the anonymous namespace of
    src/unit_tests/UnitTestHOMasterElements.C that the checks are built
    from.  [std::pow] belongs to the C library and is a parameter; its
    integer exponent is converted to [double] first, as the overload
    [pow(double, unsigned)] does. *)

Module HOMasterElementsTest.

(** An unchecked array read, and the conversion of a loop counter to
    [double]. *)
Definition at_ (a : list float) (i : nat) : float := default 0%float (a !! i).

Definition float_of_nat (n : nat) : float := of_uint63 (Uint63.of_Z (Z.of_nat n)).

Section polynomials.

Variable pow : float → float → float.

(** [poly_val]: [val += coeffs[j]*std::pow(x,j)] for [j] from 0. *)
Definition poly_val (coeffs : list float) (x : float) : float :=
  foldl (λ val j, (val + at_ coeffs j * pow x (float_of_nat j))%float)
        0%float (seq 0 (length coeffs)).

(** [poly_der]: [val += coeffs[j]*std::pow(x,j-1)*j] for [j] from 1. *)
Definition poly_der (coeffs : list float) (x : float) : float :=
  foldl (λ val j,
           (val + at_ coeffs j * pow x (float_of_nat (j - 1)) * float_of_nat j)%float)
        0%float (seq 1 (length coeffs - 1)).

(** [poly_int]: both bounds are accumulated in one loop,
    [upper += coeffs[j]*std::pow(xupper,j+1)/(j+1.0)] and the same for
    [lower]; the result is [upper - lower]. *)
Definition poly_int (coeffs : list float) (xlower xupper : float) : float :=
  let '(upper, lower) :=
    foldl (λ '(upper, lower) j,
             ((upper + at_ coeffs j * pow xupper (float_of_nat (j + 1))
                       / (float_of_nat j + 1))%float,
              (lower + at_ coeffs j * pow xlower (float_of_nat (j + 1))
                       / (float_of_nat j + 1))%float))
          (0%float, 0%float) (seq 0 (length coeffs)) in
  (upper - lower)%float.

(** The sum one bound of [poly_int] accumulates. *)
Definition antiderivative_sum (coeffs : list float) (x : float) : float :=
  foldl (λ acc j, (acc + at_ coeffs j * pow x (float_of_nat (j + 1))
                         / (float_of_nat j + 1))%float)
        0%float (seq 0 (length coeffs)).

End polynomials.

(** [linear_scalar_value]; the test [dim == 2u] compares as [unsigned]. *)
Definition linear_scalar_value (dim : Z) (a : float) (b x : list float) : float :=
  if (to_unsigned dim =? 2)%Z then
    (a + at_ b 0 * at_ x 0 + at_ b 1 * at_ x 1)%float
  else
    (a + at_ b 0 * at_ x 0 + at_ b 1 * at_ x 1 + at_ b 2 * at_ x 2)%float.

Record LinearField := {
  dim : Z;
  a : float;
  b : list float
}.

(** The constructor assigns [b[2]] only when [dim == 3]; otherwise the
    member keeps the indeterminate value it had, [garbage]. *)
Definition LinearField_ctor (garbage : float) (in_dim : Z) (in_a : float)
    (in_b : list float) : LinearField :=
  {| dim := in_dim;
     a := in_a;
     b := [at_ in_b 0; at_ in_b 1;
           if (in_dim =? 3)%Z then at_ in_b 2 else garbage] |}.

(** [operator()]. *)
Definition LinearField_call (f : LinearField) (x : list float) : float :=
  linear_scalar_value (dim f) (a f) (b f) x.

(** ** Facts *)

Section polynomial_facts.

Variable pow : float → float → float.

Lemma poly_int_bounds (coeffs : list float) (xlower xupper : float) :
  poly_int pow coeffs xlower xupper =
  (antiderivative_sum pow coeffs xupper - antiderivative_sum pow coeffs xlower)%float.
Proof.
  unfold poly_int, antiderivative_sum.
  generalize (seq 0 (length coeffs)) as js. generalize 0%float at 1 3 as u.
  generalize 0%float as l. intros l u js. revert l u.
  induction js as [|j js IH]; intros l u; simpl; [done|]. apply IH.
Qed.


(** X7. Over an empty interval [poly_int] returns [+0.0] when the sum it
    accumulates at the bound is finite, and NaN when that sum is infinite or
    NaN. *)
Theorem poly_int_empty_interval (coeffs : list float) (x : float) :
  poly_int pow coeffs x x =
  if is_finite (antiderivative_sum pow coeffs x) then 0%float else nan.
Proof. rewrite poly_int_bounds. apply Binary64Arith.sub_diag. Qed.

Lemma foldl_ext_in {A B} (f g : A → B → A) (l : list B) : ∀ x,
  (∀ acc y, y ∈ l → f acc y = g acc y) → foldl f x l = foldl g x l.
Proof.
  induction l as [|y l IH]; intros x Hfg; simpl; [done|].
  rewrite (Hfg x y) by left. apply IH. intros acc z Hz. apply Hfg. by right.
Qed.

(** X8. [poly_der] never reads the constant coefficient: polynomials that
    differ in [coeffs[0]] only have the same derivative value, and a
    polynomial with at most one coefficient has derivative [+0.0] at every
    point, NaN and the infinities included. *)
Theorem poly_der_ignores_constant (c0 c0' : float) (coeffs : list float) (x : float) :
  poly_der pow (c0 :: coeffs) x = poly_der pow (c0' :: coeffs) x ∧
  poly_der pow [c0] x = 0%float ∧
  poly_der pow [] x = 0%float.
Proof.
  split; [|done]. unfold poly_der. simpl length.
  apply foldl_ext_in. intros acc j Hj. apply elem_of_seq in Hj.
  destruct j as [|j]; [lia|]. done.
Qed.

End polynomial_facts.

(** X9. A [LinearField] built for dimension 2 or 3 evaluates to
    [linear_scalar_value] of the coefficients it was built from, whatever
    was in the unassigned [b[2]]; built for any other dimension it adds
    [b[2] * x[2]] with the indeterminate [b[2]]. *)
Theorem LinearField_call_ctor (garbage : float) (in_dim : Z) (in_a : float)
    (in_b x : list float) :
  (- 2 ^ 31 ≤ in_dim < 2 ^ 31)%Z →
  LinearField_call (LinearField_ctor garbage in_dim in_a in_b) x =
  if decide (in_dim = 2%Z ∨ in_dim = 3%Z) then linear_scalar_value in_dim in_a in_b x
  else (in_a + at_ in_b 0 * at_ x 0 + at_ in_b 1 * at_ x 1 + garbage * at_ x 2)%float.
Proof.
  intros Hrange. unfold LinearField_call, LinearField_ctor, linear_scalar_value. simpl.
  destruct (decide (in_dim = 2%Z)) as [->|H2]; [done|].
  assert (Hu : (to_unsigned in_dim =? 2)%Z = false).
  { apply Z.eqb_neq. unfold to_unsigned.
    destruct (decide (0 ≤ in_dim)%Z).
    - rewrite Z.mod_small by lia. done.
    - rewrite <- (Z.mod_add in_dim 1 (2 ^ 32)) by lia.
      rewrite Z.mod_small by lia. lia. }
  rewrite Hu.
  destruct (decide (in_dim = 3%Z)) as [->|H3]; [done|].
  rewrite decide_False by lia.
  replace (in_dim =? 3)%Z with false by (symmetry; apply Z.eqb_neq; lia). done.
Qed.

(** A planar field, built with something left in [b[2]]. *)
Lemma LinearField_planar_witness :
  LinearField_call (LinearField_ctor 99 2 1 [2; 3]%float) [4; 5; 6]%float = 24%float.
Proof.
  rewrite (LinearField_call_ctor 99 2 1 [2; 3]%float [4; 5; 6]%float) by lia.
  vm_compute. reflexivity.
Defined.

End HOMasterElementsTest.
